(** * knows: the YARS-PG serializer of [knows/output_format.py]

    A shallow embedding of [OutputFormat]: the dispatch of [to_format], the
    two YARS-PG renderers and the four term formatters, with Python's
    exceptions made explicit in an error monad. *)

From Stdlib Require Import String Ascii List ZArith Lia Bool.
From Stdlib Require Import DecimalString DecimalZ.
Import ListNotations.

Local Open Scope list_scope.
Local Open Scope string_scope.

(** ** Exceptions and the error monad *)

(** The two ways a call of this module can raise: a failed lookup in the
    dispatch dictionary, or an exception that comes from outside, raised by
    an attribute value's own [__format__] or by a collaborator; the latter
    is kept as the opaque text of what was raised. *)
Inductive pyexn : Type :=
| KeyError (key : string)
| Raised (what : string).

Inductive result (A : Type) : Type :=
| Ok (a : A)
| Err (e : pyexn).
Arguments Ok {A} a.
Arguments Err {A} e.

Definition bind {A B : Type} (m : result A) (k : A -> result B) : result B :=
  match m with
  | Ok a => k a
  | Err e => Err e
  end.

Notation "x <- m ;; k" := (bind m (fun x => k))
  (at level 61, m at next level, right associativity).

(** A list comprehension whose element expression may raise: elements are
    evaluated left to right and the first exception aborts the whole list. *)
Fixpoint comprehension {A B : Type} (f : A -> result B) (xs : list A)
  : result (list B) :=
  match xs with
  | [] => Ok []
  | x :: rest =>
      y <- f x ;;
      ys <- comprehension f rest ;;
      Ok (y :: ys)
  end.

(** ** Python values *)

(** An attribute value, as far as this module observes it: only through
    [format(value, '')].  A float is carried as the text [float.__str__]
    gives for it; an arbitrary object as the outcome of its [__format__],
    a string or a raised exception. *)
Inductive value : Type :=
| VStr (s : string)
| VInt (z : Z)
| VBool (b : bool)
| VFloat (repr : string)
| VNone
| VObj (fmt : result string).

(** A node identifier: an integer or a string. *)
Inductive node_id : Type :=
| IdInt (z : Z)
| IdStr (s : string).

Definition str_int (z : Z) : string := NilZero.string_of_int (Z.to_int z).

(** [f"{value}"] *)
Definition format_value (v : value) : result string :=
  match v with
  | VStr s => Ok s
  | VInt z => Ok (str_int z)
  | VBool true => Ok "True"
  | VBool false => Ok "False"
  | VFloat repr => Ok repr
  | VNone => Ok "None"
  | VObj fmt => fmt
  end.

(** [f"{node_id}"] *)
Definition format_id (i : node_id) : string :=
  match i with
  | IdInt z => str_int z
  | IdStr s => s
  end.

(** ** Attribute dictionaries *)

(** A [dict] with string keys, in insertion order. *)
Definition attrs : Type := list (string * value).

(** [d.get(key, default)] *)
Fixpoint dict_get (d : attrs) (key : string) (default : value) : value :=
  match d with
  | [] => default
  | (k, v) :: rest => if String.eqb k key then v else dict_get rest key default
  end.

(** [key in d] *)
Definition dict_has (d : attrs) (key : string) : bool :=
  existsb (fun kv => String.eqb (fst kv) key) d.

(** [d[key] = v]: an existing key keeps its position, a new one goes last. *)
Fixpoint dict_set (d : attrs) (key : string) (v : value) : attrs :=
  match d with
  | [] => [(key, v)]
  | (k, w) :: rest =>
      if String.eqb k key then (k, v) :: rest else (k, w) :: dict_set rest key v
  end.

(** [sep.join(parts)] *)
Definition join (sep : string) (parts : list string) : string :=
  String.concat sep parts.

Definition nl : string := String (ascii_of_nat 10) EmptyString.
Definition dq : string := String (ascii_of_nat 34) EmptyString.

(** ** The graph *)

(** Modelled from the spec: the [Graph] class of the repository and the
    graph object it wraps are not part of this file's source.  A graph is
    what the serializer reads of it: the node view [nodes(data=True)] and
    the edge view [edges(data=True)], each in the graph's iteration order,
    which the spec fixes as insertion order; parallel edges are allowed. *)
Record Graph : Type := mkGraph {
  nodes : list (node_id * attrs);
  edges : list (node_id * node_id * attrs)
}.

Definition empty_graph : Graph := mkGraph [] [].

(** Modelled from the spec: inserting a node or an edge puts it last in the
    iteration order. *)
Definition add_node (g : Graph) (n : node_id) (a : attrs) : Graph :=
  mkGraph (nodes g ++ [(n, a)])%list (edges g).

Definition add_edge (g : Graph) (u v : node_id) (a : attrs) : Graph :=
  mkGraph (nodes g) (edges g ++ [(u, v, a)])%list.

(** ** The term formatters *)

(** [f'"{key}": "{value}"'], the value already formatted. *)
Definition entry (key s : string) : string :=
  dq ++ key ++ dq ++ ": " ++ dq ++ s ++ dq.

(** The list comprehension shared by the four formatters:
    [[f'"{key}": "{value}"' for key, value in attributes.items()
       if key != 'label']] *)
Fixpoint prop_entries (attributes : attrs) : result (list string) :=
  match attributes with
  | [] => Ok []
  | (key, v) :: rest =>
      if negb (String.eqb key "label") then
        s <- format_value v ;;
        entries <- prop_entries rest ;;
        Ok (entry key s :: entries)
      else prop_entries rest
  end.

(** [prop_list = ', '.join([...])] *)
Definition prop_list (attributes : attrs) : result string :=
  entries <- prop_entries attributes ;;
  Ok (join ", " entries).

Definition _format_node_yarspg (node : node_id * attrs) : result string :=
  let '(node_id, attributes) := node in
  let label := dict_get attributes "label" (VStr "label") in
  props <- prop_list attributes ;;
  label_s <- format_value label ;;
  Ok ("(" ++ format_id node_id ++ " {" ++ dq ++ label_s ++ dq ++ "}["
          ++ props ++ "])").

Definition _format_edge_yarspg (edge : node_id * node_id * attrs)
  : result string :=
  let '(u, v, attributes) := edge in
  let label := dict_get attributes "label" (VStr "label") in
  props <- prop_list attributes ;;
  label_s <- format_value label ;;
  Ok ("(" ++ format_id u ++ ")-({" ++ dq ++ label_s ++ dq ++ "}["
          ++ props ++ "])->(" ++ format_id v ++ ")").

Definition rdf_node_attributes : attrs :=
  [("label", VStr "IRI");
   ("@value", VStr "https://w3id.org/MON/person.owl#Person")].

Definition rdf_edge_attributes : attrs :=
  [("label", VStr "IRI");
   ("@value", VStr "https://w3id.org/MON/person.owl#friendOf")].

Definition _format_node_yarspg_rdf (node : node_id * attrs) : result string :=
  let node_id := fst node in
  let attributes := rdf_node_attributes in
  let label := dict_get attributes "label" (VStr "label") in
  props <- prop_list attributes ;;
  label_s <- format_value label ;;
  Ok ("(" ++ format_id node_id ++ " {" ++ dq ++ label_s ++ dq ++ "}["
          ++ props ++ "])").

Definition _format_edge_yarspg_rdf (edge : node_id * node_id * attrs)
  : result string :=
  let '(u, v) := fst edge in
  let attributes := rdf_edge_attributes in
  let label := dict_get attributes "label" (VStr "label") in
  props <- prop_list attributes ;;
  label_s <- format_value label ;;
  Ok ("(" ++ format_id u ++ ")-({" ++ dq ++ label_s ++ dq ++ "}["
          ++ props ++ "])->(" ++ format_id v ++ ")").



(** ** The two YARS-PG renderers *)

Definition _to_yarspg (g : Graph) : result string :=
  nodes_output <- comprehension _format_node_yarspg (nodes g) ;;
  edges_output <- comprehension _format_edge_yarspg (edges g) ;;
  Ok (join nl (nodes_output ++ edges_output)%list).

Definition _to_yarspg_rdf (g : Graph) : result string :=
  let nodes_section := "# Nodes" ++ nl in
  let edges_section := nl ++ "# Edges" ++ nl in
  nodes_output <- comprehension _format_node_yarspg_rdf (nodes g) ;;
  edges_output <- comprehension _format_edge_yarspg_rdf (edges g) ;;
  let nodes_output_str := join nl nodes_output in
  let edges_output_str := join nl edges_output in
  Ok (nodes_section ++ nodes_output_str ++ edges_section ++ edges_output_str).

(** ** The other renderers and the dispatch of [to_format] *)

(** The collaborators the remaining renderers delegate to: the line
    generators of the graph library, its node-link export dumped as JSON,
    and the drawer's SVG buffer decoded as UTF-8.  They are outside this
    module, so each is taken as given; any of them may raise. *)
Record Collaborators : Type := mkCollaborators {
  generate_graphml : Graph -> result (list string);
  generate_gexf : Graph -> result (list string);
  generate_gml : Graph -> result (list string);
  generate_adjlist : Graph -> result (list string);
  generate_multiline_adjlist : Graph -> result (list string);
  generate_edgelist : Graph -> result (list string);
  node_link_json : Graph -> result string;
  draw_svg : Graph -> result string
}.

Section Dispatch.

Variable nx : Collaborators.

Definition _to_graphml (g : Graph) : result string :=
  lines <- generate_graphml nx g ;; Ok (join nl lines).

Definition _to_gexf (g : Graph) : result string :=
  lines <- generate_gexf nx g ;; Ok (join nl lines).

Definition _to_gml (g : Graph) : result string :=
  lines <- generate_gml nx g ;; Ok (join nl lines).

Definition _to_svg (g : Graph) : result string := draw_svg nx g.

Definition _to_adjacency_list (g : Graph) : result string :=
  lines <- generate_adjlist nx g ;; Ok (join nl lines).

Definition _to_multiline_adjacency_list (g : Graph) : result string :=
  lines <- generate_multiline_adjlist nx g ;; Ok (join nl lines).

Definition _to_edge_list (g : Graph) : result string :=
  lines <- generate_edgelist nx g ;; Ok (join nl lines).

Definition _to_json (g : Graph) : result string := node_link_json nx g.

(** The dictionary literal of [to_format], in the order it is written. *)
Definition format_methods : list (string * (Graph -> result string)) :=
  [("graphml", _to_graphml); ("yarspg", _to_yarspg);
   ("yarspg-rdf", _to_yarspg_rdf); ("gexf", _to_gexf);
   ("gml", _to_gml); ("svg", _to_svg);
   ("adjacency_list", _to_adjacency_list);
   ("multiline_adjacency_list", _to_multiline_adjacency_list);
   ("edge_list", _to_edge_list);
   ("json", _to_json)].

(** [methods[key]]: the method stored under [key], or [KeyError(key)]. *)
Fixpoint getitem {M : Type} (methods : list (string * M)) (key : string)
  : result M :=
  match methods with
  | [] => Err (KeyError key)
  | (k, m) :: rest => if String.eqb k key then Ok m else getitem rest key
  end.

Definition to_format (g : Graph) (format_type : string) : result string :=
  method <- getitem format_methods format_type ;;
  method g.

End Dispatch.

(** The format names [to_format] supports. *)
Definition supported_formats : list string :=
  ["graphml"; "yarspg"; "yarspg-rdf"; "gexf"; "gml"; "svg"; "adjacency_list";
   "multiline_adjacency_list"; "edge_list"; "json"].

(** ** Lines of a document *)

Definition newline : ascii := ascii_of_nat 10.

(** [s.split(c)] for a one-character separator [c]. *)
Fixpoint split (c : ascii) (s : string) : list string :=
  match s with
  | EmptyString => [EmptyString]
  | String a rest =>
      if Ascii.eqb a c then EmptyString :: split c rest
      else match split c rest with
           | line :: lines => String a line :: lines
           | [] => [String a EmptyString]
           end
  end.

(** [c in s] *)
Fixpoint contains (c : ascii) (s : string) : bool :=
  match s with
  | EmptyString => false
  | String a rest => Ascii.eqb a c || contains c rest
  end.

Definition one_line (s : string) : bool := negb (contains newline s).


(** The lines a newline-joined section takes in a document: its terms, or
    one empty line when it has none. *)
Definition section_lines (terms : list string) : list string :=
  match terms with
  | [] => [EmptyString]
  | _ => terms
  end.


(** ** Conditions on graphs *)











(** The keys of a dictionary are pairwise distinct. *)
Fixpoint unique_keys (a : attrs) : bool :=
  match a with
  | [] => true
  | (k, _) :: rest => negb (dict_has rest k) && unique_keys rest
  end.



(** ** The property-list formatter, as the specification words it *)

(** [format(attributes, excludeKey)]: go through the map in insertion order,
    skip the entries under [excludeKey], emit the others as quoted
    key-value pairs with the value string-coerced, join with comma-space. *)
Definition remaining (attributes : attrs) (excludeKey : string) : attrs :=
  filter (fun kv => negb (String.eqb (fst kv) excludeKey)) attributes.

Definition emit (kv : string * value) : result string :=
  s <- format_value (snd kv) ;; Ok (entry (fst kv) s).


(** ** Concrete graphs *)

(** Node 1 with label Person and name Alice, node 2 without attributes,
    and an edge from 1 to 2 labelled knows, inserted in that order. *)
Definition alice_graph : Graph :=
  add_edge
    (add_node
       (add_node empty_graph (IdInt 1)
          (dict_set (dict_set [] "label" (VStr "Person")) "name" (VStr "Alice")))
       (IdInt 2) [])
    (IdInt 1) (IdInt 2) (dict_set [] "label" (VStr "knows")).


(** Two nodes and no edge. *)
Definition two_nodes : Graph :=
  mkGraph [(IdInt 1, []); (IdInt 2, [("name", VStr "Bob")])] [].





(** ** Reading a property list back *)

Definition quote : ascii := ascii_of_nat 34.

Definition quote_free (s : string) : bool := negb (contains quote s).

(** The key holds no double quote and the value formats to a text that
    holds none. *)
Definition kv_quote_free (kv : string * value) : bool :=
  quote_free (fst kv)
  && match format_value (snd kv) with
     | Ok s => quote_free s
     | Err _ => false
     end.

Definition attrs_quote_free (a : attrs) : bool := forallb kv_quote_free a.

(** Two attributes show the same in a property list: same key, same
    formatted value. *)
Definition same_entry (x y : string * value) : Prop :=
  fst x = fst y /\ format_value (snd x) = format_value (snd y).

(** What follows the first entry of a joined property list. *)
Definition join_tail (entries : list string) : string :=
  match entries with
  | [] => EmptyString
  | _ => ", " ++ join ", " entries
  end.


(** ** Collaborators for the delegating renderers *)

(** The six formats rendered by joining the lines of a generator, each
    with the generator [to_format] reaches under that name. *)
Definition line_formats
  : list (string * (Collaborators -> Graph -> result (list string))) :=
  [("graphml", generate_graphml); ("gexf", generate_gexf);
   ("gml", generate_gml); ("adjacency_list", generate_adjlist);
   ("multiline_adjacency_list", generate_multiline_adjlist);
   ("edge_list", generate_edgelist)].

(** A stand-in for the collaborators: every generator yields the same
    lines, the JSON export and the drawer the same text. *)
Definition canned (lines : list string) (text : string) : Collaborators :=
  mkCollaborators
    (fun _ => Ok lines) (fun _ => Ok lines) (fun _ => Ok lines)
    (fun _ => Ok lines) (fun _ => Ok lines) (fun _ => Ok lines)
    (fun _ => Ok text) (fun _ => Ok text).

(** ** The graph RDF mode renders *)


(** A value that formats to a text reading as the end of one entry and
    the whole of a second one. *)
Definition forged_value : value :=
  VStr ("x" ++ dq ++ ", " ++ dq ++ "b" ++ dq ++ ": " ++ dq ++ "y").

(** A node and an edge that both fail to format, each with an exception
    of its own. *)
Definition two_failures_graph : Graph :=
  mkGraph
    [(IdInt 1, [("name", VStr "Alice")]);
     (IdInt 2, [("age", VObj (Err (Raised "node"))); ("name", VStr "Bob")])]
    [(IdInt 1, IdInt 2, [("since", VObj (Err (Raised "edge")))])].

(** * Properties *)

(** ** The error monad and comprehensions *)

Lemma bind_Ok {A B : Type} (m : result A) (k : A -> result B) (b : B) :
  bind m k = Ok b -> exists a, m = Ok a /\ k a = Ok b.
Proof.
  destruct m as [a | e]; simpl; intros H; [exists a; auto | discriminate].
Qed.


Lemma comprehension_Ok_Forall2 {A B : Type} (f : A -> result B) xs ys :
  comprehension f xs = Ok ys <-> Forall2 (fun x y => f x = Ok y) xs ys.
Proof.
  revert ys; induction xs as [| x xs IH]; intros ys; simpl.
  - split; intros H.
    + injection H as <-. constructor.
    + inversion H; reflexivity.
  - split; intros H.
    + apply bind_Ok in H as (y & Hy & H).
      apply bind_Ok in H as (ys' & Hys & H).
      injection H as <-. constructor; [exact Hy | apply IH, Hys].
    + inversion H as [| ? y ? ys' Hy Hys]; subst.
      rewrite Hy; simpl. apply IH in Hys. rewrite Hys; reflexivity.
Qed.

Lemma comprehension_length {A B : Type} (f : A -> result B) xs ys :
  comprehension f xs = Ok ys -> List.length ys = List.length xs.
Proof.
  intros H. apply comprehension_Ok_Forall2 in H.
  induction H; simpl; congruence.
Qed.




(** ** Strings, joining and splitting *)

Lemma contains_app c s t : contains c (s ++ t) = contains c s || contains c t.
Proof.
  induction s as [| a s IH]; simpl; [reflexivity |].
  now rewrite IH, orb_assoc.
Qed.

Lemma one_line_app s t : one_line (s ++ t) = one_line s && one_line t.
Proof. unfold one_line. now rewrite contains_app, negb_orb. Qed.

Lemma split_not_nil c s : split c s <> [].
Proof.
  destruct s as [| a s]; simpl; [discriminate |].
  destruct (Ascii.eqb a c); [discriminate |].
  destruct (split c s); discriminate.
Qed.

Lemma split_free c s : contains c s = false -> split c s = [s].
Proof.
  induction s as [| a s IH]; simpl; [reflexivity |].
  intros H. apply orb_false_elim in H as [Ha Hs].
  now rewrite Ha, (IH Hs).
Qed.

Lemma split_sep c s t :
  split c (s ++ String c t) = (split c s ++ split c t)%list.
Proof.
  induction s as [| a s IH]; simpl.
  - now rewrite Ascii.eqb_refl.
  - destruct (Ascii.eqb a c); [now rewrite IH |].
    rewrite IH. destruct (split c s) as [| l ls] eqn:E; [| reflexivity].
    now apply split_not_nil in E.
Qed.

Lemma join_cons2 sep x y rest :
  join sep (x :: y :: rest) = x ++ sep ++ join sep (y :: rest).
Proof. reflexivity. Qed.

Lemma split_join_lines terms :
  forallb one_line terms = true ->
  split newline (join nl terms) = section_lines terms.
Proof.
  induction terms as [| x [| y rest] IH]; intros H.
  - reflexivity.
  - simpl in *. rewrite andb_true_r in H.
    apply split_free. unfold one_line in H. now apply negb_true_iff in H.
  - rewrite join_cons2. change (forallb one_line (x :: y :: rest))
      with (one_line x && forallb one_line (y :: rest)) in H.
    apply andb_prop in H as [Hx Hrest].
    unfold nl. change (String (ascii_of_nat 10) "" ++ join (String (ascii_of_nat 10) "") (y :: rest))
      with (String newline (join nl (y :: rest))).
    rewrite split_sep, (IH Hrest), split_free.
    + reflexivity.
    + unfold one_line in Hx. now apply negb_true_iff in Hx.
Qed.

Lemma length_app_string s t :
  String.length (s ++ t) = String.length s + String.length t.
Proof. induction s; simpl; auto. Qed.

(** The length of a join: the parts, and one separator between neighbours. *)
Lemma join_length sep parts :
  String.length (join sep parts)
  = list_sum (map String.length parts)
    + String.length sep * (List.length parts - 1).
Proof.
  induction parts as [| x [| y rest] IH].
  - simpl. lia.
  - simpl. lia.
  - rewrite join_cons2, !length_app_string, IH.
    change (map String.length (x :: y :: rest))
      with (String.length x :: map String.length (y :: rest)).
    change (list_sum (String.length x :: map String.length (y :: rest)))
      with (String.length x + list_sum (map String.length (y :: rest))).
    simpl List.length. nia.
Qed.

(** Decimal numerals hold no newline. *)
Lemma one_line_uint d : one_line (NilEmpty.string_of_uint d) = true.
Proof. induction d; simpl; auto. Qed.

Lemma one_line_str_int z : one_line (str_int z) = true.
Proof.
  unfold str_int, NilZero.string_of_int, NilZero.string_of_uint.
  destruct (Z.to_int z) as [d | d]; destruct d; try reflexivity;
    try apply one_line_uint;
    change (one_line (String "-" EmptyString ++ NilEmpty.string_of_uint _) = true);
    rewrite one_line_app; apply one_line_uint.
Qed.

(** ** Formatting of values *)

Example str_int_examples :
  str_int 0 = "0" /\ str_int 42 = "42" /\ str_int (-12) = "-12".
Proof. repeat split. Qed.

Example format_value_examples :
  format_value (VBool true) = Ok "True"
  /\ format_value (VInt 30) = Ok "30"
  /\ format_value (VFloat "0.5") = Ok "0.5"
  /\ format_value (VObj (Err (Raised "boom"))) = Err (Raised "boom").
Proof. repeat split. Qed.

Example prop_list_example :
  prop_list [("name", VStr "Alice"); ("label", VStr "Person"); ("age", VInt 30)]
  = Ok (dq ++ "name" ++ dq ++ ": " ++ dq ++ "Alice" ++ dq ++ ", "
           ++ dq ++ "age" ++ dq ++ ": " ++ dq ++ "30" ++ dq).
Proof. reflexivity. Qed.

Example split_examples :
  split newline "" = [""]
  /\ split newline ("a" ++ nl ++ "b" ++ nl) = ["a"; "b"; ""].
Proof. repeat split. Qed.

(** ** Dictionaries *)





(** ** The property list *)

(** The comprehension of the source is the emission of the entries that
    remain once the label is taken out. *)
Lemma prop_entries_remaining attributes :
  prop_entries attributes = comprehension emit (remaining attributes "label").
Proof.
  induction attributes as [| [key v] rest IH]; [reflexivity |].
  change (remaining ((key, v) :: rest) "label")
    with (if negb (String.eqb key "label")
          then (key, v) :: remaining rest "label"
          else remaining rest "label").
  cbn [prop_entries].
  destruct (negb (String.eqb key "label")); [| exact IH].
  cbn [comprehension]. rewrite <- IH. unfold emit. cbn [fst snd].
  destruct (format_value v); reflexivity.
Qed.




(** ** Terms without a label *)



(** ** Dispatch *)

Lemma getitem_missing {M : Type} (methods : list (string * M)) key :
  ~ In key (map fst methods) -> getitem methods key = Err (KeyError key).
Proof.
  induction methods as [| [k m] rest IH]; simpl; [reflexivity |].
  intros H. destruct (String.eqb k key) eqn:E.
  - apply String.eqb_eq in E. exfalso; auto.
  - apply IH. auto.
Qed.

Lemma to_format_yarspg nx g : to_format nx g "yarspg" = _to_yarspg g.
Proof. reflexivity. Qed.


(** C7: a format name outside the ten supported ones makes [to_format]
    raise the key error of the failed dictionary lookup, carrying the
    name; no renderer runs and nothing is returned. *)
Theorem to_format_unknown (nx : Collaborators) (g : Graph) (name : string) :
  ~ In name supported_formats ->
  to_format nx g name = Err (KeyError name).
Proof.
  intros H. unfold to_format.
  rewrite getitem_missing; [reflexivity | exact H].
Qed.

Lemma to_format_unknown_witness :
  ~ In "unknown" supported_formats
  /\ forall nx, to_format nx alice_graph "unknown" = Err (KeyError "unknown").
Proof.
  assert (H : ~ In "unknown" supported_formats)
    by (simpl; intuition discriminate).
  split; [exact H |].
  intros nx. exact (to_format_unknown nx alice_graph "unknown" H).
Defined.

(** ** The concrete scenario and the empty graph *)

(** C1: for the graph of node 1 (label Person, name Alice), node 2 without
    attributes and the edge from 1 to 2 labelled knows, inserted in that
    order, the yarspg document and the yarspg-rdf document are exactly the
    two texts of the specification. *)
Theorem alice_graph_documents (nx : Collaborators) :
  nodes alice_graph
  = [(IdInt 1, [("label", VStr "Person"); ("name", VStr "Alice")]);
     (IdInt 2, [])]
  /\ edges alice_graph = [(IdInt 1, IdInt 2, [("label", VStr "knows")])]
  /\ to_format nx alice_graph "yarspg"
     = Ok ("(1 {" ++ dq ++ "Person" ++ dq ++ "}[" ++ dq ++ "name" ++ dq
             ++ ": " ++ dq ++ "Alice" ++ dq ++ "])" ++ nl
             ++ "(2 {" ++ dq ++ "label" ++ dq ++ "}[])" ++ nl
             ++ "(1)-({" ++ dq ++ "knows" ++ dq ++ "}[])->(2)")
  /\ to_format nx alice_graph "yarspg-rdf"
     = Ok ("# Nodes" ++ nl
             ++ "(1 {" ++ dq ++ "IRI" ++ dq ++ "}[" ++ dq ++ "@value" ++ dq
             ++ ": " ++ dq ++ "https://w3id.org/MON/person.owl#Person" ++ dq
             ++ "])" ++ nl
             ++ "(2 {" ++ dq ++ "IRI" ++ dq ++ "}[" ++ dq ++ "@value" ++ dq
             ++ ": " ++ dq ++ "https://w3id.org/MON/person.owl#Person" ++ dq
             ++ "])" ++ nl
             ++ "# Edges" ++ nl
             ++ "(1)-({" ++ dq ++ "IRI" ++ dq ++ "}[" ++ dq ++ "@value" ++ dq
             ++ ": " ++ dq ++ "https://w3id.org/MON/person.owl#friendOf" ++ dq
             ++ "])->(2)").
Proof. repeat split; vm_compute; reflexivity. Qed.

(** C8: on the graph without nodes and edges neither renderer raises:
    yarspg gives the empty string, yarspg-rdf the two headers with an
    empty node section and an empty edge section. *)
Theorem empty_graph_documents (nx : Collaborators) :
  to_format nx empty_graph "yarspg" = Ok ""
  /\ to_format nx empty_graph "yarspg-rdf"
     = Ok ("# Nodes" ++ nl ++ "" ++ nl ++ "# Edges" ++ nl ++ "").
Proof. split; reflexivity. Qed.

(** ** RDF mode *)







(** ** Documents with one section *)

(** C10: with no edges the yarspg document is the node terms joined by
    single newlines and nothing else, and with no nodes it is the edge
    terms joined the same way: its length is the terms' lengths plus one
    newline between neighbours, none before the first term or after the
    last. *)
Theorem yarspg_single_section (nx : Collaborators) (g : Graph) :
  (edges g = [] -> nodes g <> [] ->
   to_format nx g "yarspg"
   = (terms <- comprehension _format_node_yarspg (nodes g) ;;
      Ok (join nl terms))
   /\ forall terms,
        comprehension _format_node_yarspg (nodes g) = Ok terms ->
        String.length (join nl terms) + 1
        = list_sum (map String.length terms) + List.length (nodes g))
  /\ (nodes g = [] -> edges g <> [] ->
      to_format nx g "yarspg"
      = (terms <- comprehension _format_edge_yarspg (edges g) ;;
         Ok (join nl terms))
      /\ forall terms,
           comprehension _format_edge_yarspg (edges g) = Ok terms ->
           String.length (join nl terms) + 1
           = list_sum (map String.length terms) + List.length (edges g)).
Proof.
  split; intros Hnone Hsome; split.
  - rewrite to_format_yarspg. unfold _to_yarspg. rewrite Hnone.
    destruct (comprehension _format_node_yarspg (nodes g)); simpl;
      [now rewrite app_nil_r | reflexivity].
  - intros terms H. apply comprehension_length in H.
    rewrite join_length, H. simpl String.length.
    destruct (nodes g); [contradiction | simpl; lia].
  - rewrite to_format_yarspg. unfold _to_yarspg. rewrite Hnone. reflexivity.
  - intros terms H. apply comprehension_length in H.
    rewrite join_length, H. simpl String.length.
    destruct (edges g); [contradiction | simpl; lia].
Qed.

Lemma yarspg_single_section_witness :
  edges two_nodes = [] /\ nodes two_nodes <> []
  /\ forall nx,
       to_format nx two_nodes "yarspg"
       = (terms <- comprehension _format_node_yarspg (nodes two_nodes) ;;
          Ok (join nl terms)).
Proof.
  assert (H : nodes two_nodes <> []) by (simpl; discriminate).
  split; [reflexivity | split; [exact H |]].
  intros nx.
  exact (proj1 (proj1 (yarspg_single_section nx two_nodes) eq_refl H)).
Defined.

(** ** One-line terms *)






Lemma one_line_format_id_int z : one_line (format_id (IdInt z)) = true.
Proof. apply one_line_str_int. Qed.




(** ** The lines of a yarspg document *)




(** ** The lines of a yarspg-rdf document *)












(** ** String coercion *)



















(** * Further properties of the serializer *)

(** ** Property lists can be read back when nothing needs escaping *)

Lemma string_app_assoc (s t u : string) : (s ++ t) ++ u = s ++ t ++ u.
Proof. induction s as [| a s IH]; simpl; [reflexivity | now rewrite IH]. Qed.

(** A text is cut in one way only at the first occurrence of a
    character. *)
Lemma app_sep_inj c s s' t t' :
  contains c s = false -> contains c s' = false ->
  s ++ String c t = s' ++ String c t' -> s = s' /\ t = t'.
Proof.
  revert s'. induction s as [| a s IH]; intros [| a' s'] Hs Hs' H; simpl in *.
  - injection H as ->. auto.
  - injection H as <- _. apply orb_false_elim in Hs' as [Ha _].
    rewrite Ascii.eqb_refl in Ha. discriminate.
  - injection H as -> _. apply orb_false_elim in Hs as [Ha _].
    rewrite Ascii.eqb_refl in Ha. discriminate.
  - injection H as -> H.
    apply orb_false_elim in Hs as [_ Hs].
    apply orb_false_elim in Hs' as [_ Hs'].
    destruct (IH s' Hs Hs' H) as [-> ->]. auto.
Qed.

Lemma entry_app key s rest :
  entry key s ++ rest
  = String quote
      (key ++ String quote
                (String ":" (String " "
                   (String quote (s ++ String quote rest))))).
Proof.
  unfold entry, dq. fold quote.
  rewrite !string_app_assoc. reflexivity.
Qed.

Lemma entry_inj k s r k' s' r' :
  quote_free k = true -> quote_free s = true ->
  quote_free k' = true -> quote_free s' = true ->
  entry k s ++ r = entry k' s' ++ r' -> k = k' /\ s = s' /\ r = r'.
Proof.
  unfold quote_free. intros Hk Hs Hk' Hs' H.
  apply negb_true_iff in Hk, Hs, Hk', Hs'.
  rewrite !entry_app in H. injection H as H.
  apply (app_sep_inj _ _ _ _ _ Hk Hk') in H as [-> H].
  injection H as H.
  apply (app_sep_inj _ _ _ _ _ Hs Hs') in H as [-> ->]. auto.
Qed.

Lemma join_cons_tail e es : join ", " (e :: es) = e ++ join_tail es.
Proof.
  destruct es as [| e' es]; simpl.
  - induction e as [| a e IH]; simpl; [reflexivity | now rewrite <- IH].
  - reflexivity.
Qed.

Lemma entry_not_empty k s r : entry k s ++ r <> EmptyString.
Proof. rewrite entry_app. discriminate. Qed.

Lemma emit_quote_free kv e :
  kv_quote_free kv = true -> emit kv = Ok e ->
  exists s,
    format_value (snd kv) = Ok s /\ e = entry (fst kv) s
    /\ quote_free (fst kv) = true /\ quote_free s = true.
Proof.
  unfold kv_quote_free, emit. intros H He.
  apply andb_prop in H as [Hk Hv].
  destruct (format_value (snd kv)) as [s | x]; [| discriminate].
  injection He as <-. now exists s.
Qed.

(** Equal joins of entries without quotes come from the same entries. *)
Lemma emit_join_inj ra :
  forall rb ea eb,
    forallb kv_quote_free ra = true -> forallb kv_quote_free rb = true ->
    comprehension emit ra = Ok ea -> comprehension emit rb = Ok eb ->
    join ", " ea = join ", " eb ->
    Forall2 same_entry ra rb.
Proof.
  induction ra as [| x ra IH]; intros rb ea eb Ha Hb Hea Heb Hj.
  - injection Hea as <-. destruct rb as [| y rb]; [constructor |].
    simpl in Hb. apply andb_prop in Hb as [Hy _].
    simpl in Heb. apply bind_Ok in Heb as (e & He & Heb).
    apply bind_Ok in Heb as (es & _ & Heb). injection Heb as <-.
    destruct (emit_quote_free y e Hy He) as (s & _ & -> & _).
    rewrite join_cons_tail in Hj. symmetry in Hj.
    now apply entry_not_empty in Hj.
  - simpl in Ha. apply andb_prop in Ha as [Hx Ha].
    simpl in Hea. apply bind_Ok in Hea as (e & He & Hea).
    apply bind_Ok in Hea as (es & Hes & Hea). injection Hea as <-.
    destruct (emit_quote_free x e Hx He) as (s & Hs & -> & Hxk & Hxs).
    rewrite join_cons_tail in Hj.
    destruct rb as [| y rb].
    + injection Heb as <-. now apply entry_not_empty in Hj.
    + simpl in Hb. apply andb_prop in Hb as [Hy Hb].
      simpl in Heb. apply bind_Ok in Heb as (e' & He' & Heb).
      apply bind_Ok in Heb as (es' & Hes' & Heb). injection Heb as <-.
      destruct (emit_quote_free y e' Hy He') as (s' & Hs' & -> & Hyk & Hys).
      rewrite join_cons_tail in Hj.
      apply entry_inj in Hj as (Hk & Hv & Ht); try assumption.
      constructor.
      * split; [exact Hk | congruence].
      * apply (IH rb es es' Ha Hb Hes Hes').
        destruct es as [| e1 es]; destruct es' as [| e2 es'];
          simpl in Ht; try discriminate; [reflexivity |].
        now injection Ht.
Qed.

Lemma forallb_remaining p a :
  forallb p a = true -> forallb p (remaining a "label") = true.
Proof.
  intros H. apply forallb_forall. intros kv Hin.
  apply filter_In in Hin as [Hin _].
  rewrite forallb_forall in H. now apply H.
Qed.

(** When no key and no formatted value holds a double quote, the property
    list determines what it was made from: two attribute maps with the same
    property list have, apart from the label, the same keys in the same
    order with the same formatted values. *)
Theorem prop_list_injective (a b : attrs) (p : string) :
  attrs_quote_free a = true -> attrs_quote_free b = true ->
  prop_list a = Ok p -> prop_list b = Ok p ->
  Forall2 same_entry (remaining a "label") (remaining b "label").
Proof.
  unfold attrs_quote_free, prop_list. intros Ha Hb Hpa Hpb.
  rewrite prop_entries_remaining in Hpa, Hpb.
  apply bind_Ok in Hpa as (ea & Hea & Hpa). injection Hpa as <-.
  apply bind_Ok in Hpb as (eb & Heb & Hpb). injection Hpb as Hj.
  apply (emit_join_inj _ _ ea eb); auto using forallb_remaining.
Qed.

Lemma prop_list_injective_witness :
  Forall2 same_entry
    (remaining [("label", VStr "Person"); ("age", VInt 30)] "label")
    (remaining [("age", VStr "30"); ("label", VStr "Robot")] "label").
Proof.
  exact (prop_list_injective
           [("label", VStr "Person"); ("age", VInt 30)]
           [("age", VStr "30"); ("label", VStr "Robot")]
           (dq ++ "age" ++ dq ++ ": " ++ dq ++ "30" ++ dq)
           eq_refl eq_refl eq_refl eq_refl).
Defined.

(** Without that condition the property list does not determine the map:
    values are written unescaped, so one attribute whose text holds quotes
    gives the same list as two plain attributes. *)
Theorem prop_list_not_injective :
  exists (a b : attrs) (p : string),
    unique_keys a = true /\ unique_keys b = true
    /\ prop_list a = Ok p /\ prop_list b = Ok p
    /\ List.length (remaining a "label") = 1
    /\ List.length (remaining b "label") = 2.
Proof.
  exists [("a", forged_value)], [("a", VStr "x"); ("b", VStr "y")].
  eexists. repeat split.
Qed.

(** ** How many entries a property list has *)

Lemma remaining_length a key :
  unique_keys a = true ->
  List.length (remaining a key) + (if dict_has a key then 1 else 0)
  = List.length a.
Proof.
  induction a as [| [k v] rest IH]; [reflexivity |].
  cbn [unique_keys]. intros H. apply andb_prop in H as [Hfresh Hu].
  apply negb_true_iff in Hfresh. specialize (IH Hu).
  unfold remaining, dict_has in *. cbn [filter existsb fst].
  destruct (String.eqb k key) eqn:E; cbn [negb orb].
  - apply String.eqb_eq in E. subst k. rewrite Hfresh in IH.
    cbn [List.length]. lia.
  - cbn [List.length]. lia.
Qed.

(** In a map with distinct keys every attribute but the label gives one
    entry: the entries are as many as the attributes, less one when there
    is a label. *)
Theorem prop_entries_count (a : attrs) (entries : list string) :
  unique_keys a = true ->
  prop_entries a = Ok entries ->
  List.length entries + (if dict_has a "label" then 1 else 0)
  = List.length a.
Proof.
  intros Hu H. rewrite prop_entries_remaining in H.
  apply comprehension_length in H. rewrite H.
  now apply remaining_length.
Qed.

Lemma prop_entries_count_witness :
  List.length
    [entry "name" "Alice"; entry "age" "30"] + 1
  = List.length
      [("name", VStr "Alice"); ("label", VStr "Person"); ("age", VInt 30)].
Proof.
  exact (prop_entries_count
           [("name", VStr "Alice"); ("label", VStr "Person"); ("age", VInt 30)]
           [entry "name" "Alice"; entry "age" "30"] eq_refl eq_refl).
Defined.

(** ** Which exception a term raises *)

Lemma prop_entries_first_failure pre k v post e :
  k <> "label" -> format_value v = Err e ->
  (forall k' v',
      In (k', v') pre -> k' <> "label" -> exists s, format_value v' = Ok s) ->
  prop_entries (pre ++ (k, v) :: post)%list = Err e.
Proof.
  intros Hk Hv. induction pre as [| [k' v'] pre IH]; intros Hpre.
  - simpl. apply String.eqb_neq in Hk. now rewrite Hk, Hv.
  - cbn [app prop_entries].
    rewrite IH by (intros k2 v2 Hin; apply Hpre; now right).
    destruct (String.eqb k' "label") eqn:E; [reflexivity |]. cbn [negb].
    destruct (Hpre k' v') as (s & ->); [now left | | reflexivity].
    now apply String.eqb_neq.
Qed.

(** A node or edge term raises what the first attribute, in insertion
    order and the label left aside, raises when it is formatted; that the
    label or a later attribute would raise too changes nothing. *)
Theorem term_raises_first_failure
  (i u w : node_id) (pre post : attrs) (k : string) (v : value) (e : pyexn) :
  k <> "label" -> format_value v = Err e ->
  (forall k' v',
      In (k', v') pre -> k' <> "label" -> exists s, format_value v' = Ok s) ->
  _format_node_yarspg (i, (pre ++ (k, v) :: post)%list) = Err e
  /\ _format_edge_yarspg (u, w, (pre ++ (k, v) :: post)%list) = Err e.
Proof.
  intros Hk Hv Hpre.
  unfold _format_node_yarspg, _format_edge_yarspg, prop_list.
  rewrite (prop_entries_first_failure pre k v post e Hk Hv Hpre).
  split; reflexivity.
Qed.

Lemma term_raises_first_failure_witness :
  _format_node_yarspg
    (IdInt 1,
     [("label", VObj (Err (Raised "label"))); ("name", VStr "Alice");
      ("age", VObj (Err (Raised "age")));
      ("city", VObj (Err (Raised "city")))])
  = Err (Raised "age").
Proof.
  refine (proj1 (term_raises_first_failure (IdInt 1) (IdInt 1) (IdInt 1)
                   [("label", VObj (Err (Raised "label")));
                    ("name", VStr "Alice")]
                   [("city", VObj (Err (Raised "city")))]
                   "age" (VObj (Err (Raised "age"))) (Raised "age")
                   _ eq_refl _)).
  - discriminate.
  - intros k' v' [H | [H | []]] Hk'; injection H as <- <-.
    + now elim Hk'.
    + now exists "Alice".
Defined.

(** ** Which exception a document raises *)

Lemma comprehension_app {A B : Type} (f : A -> result B) xs ys :
  comprehension f (xs ++ ys)%list
  = (xs' <- comprehension f xs ;;
     ys' <- comprehension f ys ;;
     Ok (xs' ++ ys')%list).
Proof.
  induction xs as [| x xs IH]; simpl.
  - destruct (comprehension f ys); reflexivity.
  - destruct (f x); simpl; [| reflexivity]. rewrite IH.
    destruct (comprehension f xs); simpl; [| reflexivity].
    destruct (comprehension f ys); reflexivity.
Qed.

Lemma comprehension_first_failure {A B : Type} (f : A -> result B)
      pre x post done e :
  comprehension f pre = Ok done -> f x = Err e ->
  comprehension f (pre ++ x :: post)%list = Err e.
Proof.
  intros Hpre Hx. rewrite comprehension_app, Hpre. simpl. now rewrite Hx.
Qed.

(** The yarspg document raises what the first failing term raises, nodes
    going before edges: a failing node hides every later node and every
    edge, and an edge is reached only when all nodes have been formatted. *)
Theorem _to_yarspg_first_failure (g : Graph) (e : pyexn) :
  (forall pre n post done,
      nodes g = (pre ++ n :: post)%list ->
      comprehension _format_node_yarspg pre = Ok done ->
      _format_node_yarspg n = Err e ->
      _to_yarspg g = Err e)
  /\ (forall pre x post terms done,
         comprehension _format_node_yarspg (nodes g) = Ok terms ->
         edges g = (pre ++ x :: post)%list ->
         comprehension _format_edge_yarspg pre = Ok done ->
         _format_edge_yarspg x = Err e ->
         _to_yarspg g = Err e).
Proof.
  split.
  - intros pre n post done Hn Hpre Hfail. unfold _to_yarspg.
    now rewrite Hn, (comprehension_first_failure _ _ _ _ _ _ Hpre Hfail).
  - intros pre x post terms done Hterms He Hpre Hfail. unfold _to_yarspg.
    rewrite Hterms, He,
      (comprehension_first_failure _ _ _ _ _ _ Hpre Hfail).
    reflexivity.
Qed.

Lemma _to_yarspg_first_failure_witness :
  _format_edge_yarspg (IdInt 1, IdInt 2, [("since", VObj (Err (Raised "edge")))])
  = Err (Raised "edge")
  /\ _to_yarspg two_failures_graph = Err (Raised "node").
Proof.
  split; [reflexivity |].
  exact (proj1 (_to_yarspg_first_failure two_failures_graph (Raised "node"))
           [(IdInt 1, [("name", VStr "Alice")])]
           (IdInt 2, [("age", VObj (Err (Raised "node")));
                      ("name", VStr "Bob")])
           []
           ["(1 {" ++ dq ++ "label" ++ dq ++ "}[" ++ dq ++ "name" ++ dq
              ++ ": " ++ dq ++ "Alice" ++ dq ++ "])"]
           eq_refl eq_refl eq_refl).
Defined.

(** ** How documents compose *)

Lemma join_app sep xs ys :
  xs <> [] -> ys <> [] ->
  join sep (xs ++ ys)%list = join sep xs ++ sep ++ join sep ys.
Proof.
  intros Hx Hy. induction xs as [| x [| x' xs] IH]; [contradiction | |].
  - destruct ys as [| y ys]; [contradiction | reflexivity].
  - change ((x :: x' :: xs) ++ ys)%list with (x :: ((x' :: xs) ++ ys))%list.
    change ((x' :: xs) ++ ys)%list with (x' :: (xs ++ ys))%list.
    rewrite join_cons2.
    change (x' :: (xs ++ ys))%list with ((x' :: xs) ++ ys)%list.
    rewrite IH by discriminate.
    rewrite join_cons2, !string_app_assoc. reflexivity.
Qed.

Lemma comprehension_not_nil {A B : Type} (f : A -> result B) xs ys :
  comprehension f xs = Ok ys -> xs <> [] -> ys <> [].
Proof.
  intros H Hx Hy. apply comprehension_length in H. subst ys.
  destruct xs; [contradiction | discriminate].
Qed.

(** The yarspg document of a graph with nodes and edges is the document
    of its nodes alone, one newline, and the document of its edges alone. *)
Theorem yarspg_nodes_then_edges (g : Graph) (dn de : string) :
  nodes g <> [] -> edges g <> [] ->
  _to_yarspg (mkGraph (nodes g) []) = Ok dn ->
  _to_yarspg (mkGraph [] (edges g)) = Ok de ->
  _to_yarspg g = Ok (dn ++ nl ++ de).
Proof.
  unfold _to_yarspg. cbn [nodes edges comprehension bind].
  intros Hn He Hdn Hde.
  destruct (comprehension _format_node_yarspg (nodes g)) as [nts |] eqn:En;
    [| discriminate].
  destruct (comprehension _format_edge_yarspg (edges g)) as [ets |] eqn:Ee;
    [| discriminate].
  cbn [bind] in *. rewrite app_nil_r in Hdn.
  injection Hdn as <-. injection Hde as <-.
  rewrite join_app; [reflexivity | |].
  - exact (comprehension_not_nil _ _ _ En Hn).
  - exact (comprehension_not_nil _ _ _ Ee He).
Qed.

Lemma yarspg_nodes_then_edges_witness :
  nodes alice_graph <> [] /\ edges alice_graph <> []
  /\ exists dn de,
       _to_yarspg (mkGraph (nodes alice_graph) []) = Ok dn
       /\ _to_yarspg (mkGraph [] (edges alice_graph)) = Ok de
       /\ _to_yarspg alice_graph = Ok (dn ++ nl ++ de).
Proof.
  assert (Hn : nodes alice_graph <> []) by (simpl; discriminate).
  assert (He : edges alice_graph <> []) by (simpl; discriminate).
  split; [exact Hn | split; [exact He |]].
  eexists; eexists.
  split; [reflexivity | split; [reflexivity |]].
  exact (yarspg_nodes_then_edges alice_graph _ _ Hn He eq_refl eq_refl).
Defined.

(** Appending an edge to a graph that is not empty appends one newline and
    the edge's term to the yarspg document; on the empty graph the document
    becomes the term alone. *)
Theorem yarspg_append_edge
  (g : Graph) (u v : node_id) (a : attrs) (out t : string) :
  _to_yarspg g = Ok out ->
  _format_edge_yarspg (u, v, a) = Ok t ->
  _to_yarspg (mkGraph (nodes g) (edges g ++ [(u, v, a)])%list)
  = Ok (match nodes g, edges g with
        | [], [] => t
        | _, _ => out ++ nl ++ t
        end).
Proof.
  unfold _to_yarspg. cbn [nodes edges]. intros Hout Ht.
  destruct (comprehension _format_node_yarspg (nodes g)) as [nts |] eqn:En;
    [| discriminate].
  destruct (comprehension _format_edge_yarspg (edges g)) as [ets |] eqn:Ee;
    [| discriminate].
  cbn [bind] in *. injection Hout as <-.
  rewrite comprehension_app, Ee. cbn [comprehension bind]. rewrite Ht.
  cbn [bind]. rewrite app_assoc.
  pose proof (comprehension_length _ _ _ En) as Ln.
  pose proof (comprehension_length _ _ _ Ee) as Le.
  destruct (nts ++ ets)%list as [| x xs] eqn:E.
  - apply app_eq_nil in E as [-> ->].
    destruct (nodes g); [| discriminate].
    destruct (edges g); [| discriminate].
    reflexivity.
  - rewrite join_app by discriminate.
    assert (Hne : nodes g <> [] \/ edges g <> []).
    { destruct nts as [| n nts'].
      - right. intros Hz. rewrite Hz in Le. destruct ets; discriminate.
      - left. intros Hz. rewrite Hz in Ln. discriminate. }
    change (join nl [t]) with t.
    destruct (nodes g), (edges g); try reflexivity.
    destruct Hne as [Hne | Hne]; now elim Hne.
Qed.

Lemma yarspg_append_edge_witness :
  exists out t,
    _to_yarspg two_nodes = Ok out
    /\ _format_edge_yarspg (IdInt 1, IdInt 2, [("label", VStr "knows")]) = Ok t
    /\ _to_yarspg
         (mkGraph (nodes two_nodes)
            (edges two_nodes ++ [(IdInt 1, IdInt 2, [("label", VStr "knows")])]))
       = Ok (out ++ nl ++ t).
Proof.
  eexists; eexists.
  split; [reflexivity | split; [reflexivity |]].
  exact (yarspg_append_edge two_nodes (IdInt 1) (IdInt 2)
           [("label", VStr "knows")] _ _ eq_refl eq_refl).
Defined.



(** ** What a term depends on *)

Lemma prop_list_remaining a b :
  remaining a "label" = remaining b "label" -> prop_list a = prop_list b.
Proof.
  intros H. unfold prop_list. now rewrite !prop_entries_remaining, H.
Qed.

(** A term depends on the attribute map only through the value the label
    lookup returns and through the other attributes in their order: where
    the label sits in the map makes no difference, and a label that is the
    text label itself gives the term of a map without label. *)
Theorem term_depends_on_label_and_rest (i u v : node_id) (a b : attrs) :
  dict_get a "label" (VStr "label") = dict_get b "label" (VStr "label") ->
  remaining a "label" = remaining b "label" ->
  _format_node_yarspg (i, a) = _format_node_yarspg (i, b)
  /\ _format_edge_yarspg (u, v, a) = _format_edge_yarspg (u, v, b).
Proof.
  intros Hl Hr. unfold _format_node_yarspg, _format_edge_yarspg.
  rewrite Hl, (prop_list_remaining a b Hr). split; reflexivity.
Qed.

Lemma term_depends_on_label_and_rest_witness :
  _format_node_yarspg (IdInt 1, [("name", VStr "Alice"); ("label", VStr "label")])
  = _format_node_yarspg (IdInt 1, [("name", VStr "Alice")]).
Proof.
  exact (proj1 (term_depends_on_label_and_rest (IdInt 1) (IdInt 1) (IdInt 1)
                  [("name", VStr "Alice"); ("label", VStr "label")]
                  [("name", VStr "Alice")] eq_refl eq_refl)).
Defined.

(** ** The dispatch table *)

Lemma getitem_found {M : Type} (methods : list (string * M)) key :
  In key (map fst methods) -> exists m, getitem methods key = Ok m.
Proof.
  induction methods as [| [k m] rest IH]; simpl; [intros [] |].
  intros [-> | Hin].
  - rewrite String.eqb_refl. now exists m.
  - destruct (String.eqb k key); [now exists m | exact (IH Hin)].
Qed.

(** The ten keys of the dispatch dictionary are pairwise distinct, so no
    renderer is shadowed by a later entry, and the lookup of a name finds
    a renderer exactly when the name is one of the ten. *)
Theorem dispatch_finds_supported (nx : Collaborators) (name : string) :
  NoDup (map fst (format_methods nx))
  /\ (In name supported_formats
      <-> exists method, getitem (format_methods nx) name = Ok method).
Proof.
  split.
  - simpl. repeat constructor; simpl; intuition discriminate.
  - split.
    + intros H. now apply getitem_found.
    + intros (method & H).
      destruct (in_dec string_dec name supported_formats) as [Hin | Hout];
        [exact Hin |].
      rewrite getitem_missing in H by exact Hout. discriminate.
Qed.

(** ** The renderers that join a generator's lines *)

(** For each of the six formats made of a generator's lines: when the
    generator yields lines that hold no newline, the document split at
    newlines gives the lines back (one empty line when there was none). *)
Theorem line_formats_round_trip
  (nx : Collaborators) (g : Graph) (name : string)
  (generate : Collaborators -> Graph -> result (list string))
  (lines : list string) :
  In (name, generate) line_formats ->
  generate nx g = Ok lines ->
  forallb one_line lines = true ->
  exists out,
    to_format nx g name = Ok out
    /\ split newline out = section_lines lines.
Proof.
  intros Hin Hgen Hlines. exists (join nl lines).
  split; [| now apply split_join_lines].
  simpl in Hin.
  destruct Hin as [H | [H | [H | [H | [H | [H | []]]]]]];
    injection H as <- <-; unfold to_format; cbn [getitem format_methods
      String.eqb Ascii.eqb Bool.eqb bind];
    [unfold _to_graphml | unfold _to_gexf | unfold _to_gml
     | unfold _to_adjacency_list | unfold _to_multiline_adjacency_list
     | unfold _to_edge_list];
    now rewrite Hgen.
Qed.

Lemma line_formats_round_trip_witness :
  In ("edge_list", generate_edgelist) line_formats
  /\ exists out,
       to_format (canned ["1 2 {}"; "2 3 {}"] "") alice_graph "edge_list"
       = Ok out
       /\ split newline out = ["1 2 {}"; "2 3 {}"].
Proof.
  assert (H : In ("edge_list", generate_edgelist) line_formats)
    by (simpl; auto 10).
  split; [exact H |].
  exact (line_formats_round_trip (canned ["1 2 {}"; "2 3 {}"] "") alice_graph
           "edge_list" generate_edgelist ["1 2 {}"; "2 3 {}"]
           H eq_refl eq_refl).
Defined.

(** ** Terms tell integer identifiers apart *)







